(** * Path normalisation and file-type filtering of dongshanMD

    Shallow embedding of [src-tauri/src/app.rs] (the same routines are
    duplicated verbatim in [main.rs]) and of the argument selection done in
    the [setup] closure of [main.rs] / [lib.rs].

    Model choices:
    - a Rust [&str] / [String] is a list of characters; characters are
      restricted to ASCII ([Ascii.ascii]);
    - [char::is_whitespace] is the Unicode White_Space property, which on
      ASCII is U+0009..U+000D and U+0020;
    - [str::to_lowercase] on ASCII maps A..Z to a..z;
    - [std::path] follows the Unix rules ([is_absolute] = starts with a slash,
      [PathBuf::join] inserts one slash unless the base already ends with one);
    - the operating system ([std::env::current_dir], [std::fs::canonicalize])
      is an explicit environment [Env]; an [OsString] that is not valid UTF-8
      is kept with a flag, since [to_str] fails on it;
    - the spawned thread of [process_and_emit_file] is its list of effects. *)

From Stdlib Require Import List Ascii String Bool Arith Lia.
Import ListNotations.

Open Scope list_scope.

Definition str := list ascii.

(** String literals of the development, as character lists. *)
Definition s (x : string) : str := list_ascii_of_string x.

(** ** Character classes *)

Definition dquote : ascii := "034"%char.
Definition squote : ascii := "039"%char.

Definition is_char (c : ascii) (x : ascii) : bool := Ascii.eqb x c.

(** [char::is_whitespace] restricted to ASCII. *)
Definition is_whitespace (c : ascii) : bool :=
  let n := nat_of_ascii c in (9 <=? n) && (n <=? 13) || (n =? 32).

(** [char::to_lowercase] restricted to ASCII. *)
Definition char_to_lowercase (c : ascii) : ascii :=
  let n := nat_of_ascii c in
  if (65 <=? n) && (n <=? 90) then ascii_of_nat (n + 32) else c.

Definition to_lowercase (x : str) : str := map char_to_lowercase x.

(** ** [str] trimming *)

(** [str::trim_start_matches] with a character predicate. *)
Fixpoint trim_start_matches (p : ascii -> bool) (x : str) : str :=
  match x with
  | [] => []
  | c :: r => if p c then trim_start_matches p r else x
  end.

(** [str::trim_end_matches] with a character predicate. *)
Fixpoint trim_end_matches (p : ascii -> bool) (x : str) : str :=
  match x with
  | [] => []
  | c :: r =>
      let r' := trim_end_matches p r in
      match r' with
      | [] => if p c then [] else [c]
      | _ => c :: r'
      end
  end.

(** [str::trim_matches]: both ends. *)
Definition trim_matches (p : ascii -> bool) (x : str) : str :=
  trim_end_matches p (trim_start_matches p x).

(** [str::trim]. *)
Definition trim (x : str) : str := trim_matches is_whitespace x.

(** [clean_file_path]: trim every double quote at both ends, then every
    single quote at both ends, then the surrounding whitespace
    ([trim_matches] twice, then [trim]). *)
Definition clean_file_path (path : str) : str :=
  trim (trim_matches (is_char squote) (trim_matches (is_char dquote) path)).

(** ** Suffix test *)

Fixpoint str_eqb (x y : str) : bool :=
  match x, y with
  | [], [] => true
  | a :: x', b :: y' => Ascii.eqb a b && str_eqb x' y'
  | _, _ => false
  end.

(** [str::ends_with] with a string pattern. *)
Definition ends_with (x suf : str) : bool :=
  (List.length suf <=? List.length x)
  && str_eqb (skipn (List.length x - List.length suf) x) suf.

(** [is_supported_file]. *)
Definition is_supported_file (path : str) : bool :=
  let lower := to_lowercase path in
  ends_with lower (s ".md") || ends_with lower (s ".markdown")
  || ends_with lower (s ".txt").

(** ** Paths and the operating system *)

Definition slash : ascii := "/"%char.

(** [Path::is_absolute] (Unix: the path has a root). *)
Definition is_absolute (path : str) : bool :=
  match path with
  | c :: _ => Ascii.eqb c slash
  | [] => false
  end.

(** An [OsString] / [PathBuf]; [pb_utf8] tells whether [to_str] succeeds. *)
Record PathBuf := mkPathBuf { pb_str : str; pb_utf8 : bool }.

(** [OsStr::to_str]. *)
Definition to_str (pb : PathBuf) : option str :=
  if pb_utf8 pb then Some (pb_str pb) else None.

(** [PathBuf::join] of a [&str] path onto a base (Unix [push] rule). *)
Definition join (base : PathBuf) (path : str) : PathBuf :=
  let b := pb_str base in
  let joined :=
    if is_absolute path then path
    else match rev b with
         | c :: _ => if Ascii.eqb c slash then b ++ path else b ++ [slash] ++ path
         | [] => path
         end in
  mkPathBuf joined (if is_absolute path then true else pb_utf8 base).

(** The environment the code queries: [std::env::current_dir()] and
    [std::fs::canonicalize]; an [Err] is [None]. *)
Record Env := mkEnv {
  current_dir : option PathBuf;
  canonicalize : str -> option PathBuf
}.

(** [to_absolute_path]. *)
Definition to_absolute_path (env : Env) (path : str) : str :=
  let cleaned := clean_file_path path in
  if is_absolute cleaned then
    match canonicalize env cleaned with
    | Some canonical =>
        match to_str canonical with
        | Some canonical_str => canonical_str
        | None => cleaned
        end
    | None => cleaned
    end
  else
    (* after the first canonicalize: join onto the working directory *)
    let from_cwd :=
      match current_dir env with
      | Some cur =>
          let absolute := join cur cleaned in
          match to_str absolute with
          | Some absolute_str =>
              match canonicalize env absolute_str with
              | Some canonical =>
                  match to_str canonical with
                  | Some canonical_str => canonical_str
                  | None => absolute_str
                  end
              | None => absolute_str
              end
          | None => cleaned
          end
      | None => cleaned
      end in
    match canonicalize env cleaned with
    | Some absolute =>
        match to_str absolute with
        | Some absolute_str => absolute_str
        | None => from_cwd
        end
    | None => from_cwd
    end.

(** ** Dispatch *)

(** Effects of a spawned thread. *)
Inductive Effect :=
| Sleep (ms : nat)
| Emit (event : string) (payload : str).

Definition Thread := list Effect.

(** [process_and_emit_file]: the threads it spawns. The emitting thread sleeps
    800 ms, then emits [open-file]; a failed emit is only logged. *)
Definition process_and_emit_file (env : Env) (file_path : str) : list Thread :=
  let cleaned_path := clean_file_path file_path in
  let absolute_path := to_absolute_path env cleaned_path in
  if is_supported_file absolute_path then
    [[Sleep 800; Emit "open-file" absolute_path]]
  else [].

(** The [setup] closure of [main] / [run_app]: [args] is
    [std::env::args().skip(1)]; each is cleaned, the supported ones are kept,
    and the first one (if any) is the one handed to [process_and_emit_file]. *)
Definition file_args (args : list str) : list str :=
  filter is_supported_file (map clean_file_path args).

Definition selected_file (args : list str) : option str :=
  match file_args args with
  | file_path :: _ => Some file_path
  | [] => None
  end.

Definition setup (env : Env) (args : list str) : list Thread :=
  match selected_file args with
  | Some file_path => process_and_emit_file env file_path
  | None => []
  end.

(** An argument as the operating system passes it ([OsString]): its text
    and whether it is valid UTF-8. *)
Definition OsString := PathBuf.

(** [std::env::args().collect()]: every argument, the program name included,
    is converted with [into_string().unwrap()], so one that is not valid
    UTF-8 makes the iteration panic ([None]). *)
Definition env_args (os_args : list OsString) : option (list str) :=
  if forallb pb_utf8 os_args then Some (map pb_str os_args) else None.

(** The [setup] closure as run by the process: [std::env::args().skip(1)]
    then the selection above; [None] is a panic of the closure. *)
Definition main_setup (env : Env) (os_args : list OsString) : option (list Thread) :=
  match env_args os_args with
  | Some all => Some (setup env (skipn 1 all))
  | None => None
  end.

(** ** Bare strings

    A string is bare when neither its first nor its last character is a
    double quote, a single quote or whitespace. *)

Definition blank (c : ascii) : bool :=
  is_char dquote c || is_char squote c || is_whitespace c.

Definition lead_ok (p : ascii -> bool) (x : str) : bool :=
  match x with
  | [] => true
  | c :: _ => negb (p c)
  end.

Definition trail_ok (p : ascii -> bool) (x : str) : bool := lead_ok p (rev x).

Definition bare (x : str) : bool := lead_ok blank x && trail_ok blank x.

(** Propositional forms of [lead_ok] / [trail_ok]. *)
Definition no_lead (p : ascii -> bool) (x : str) : Prop :=
  forall c r, x = c :: r -> p c = false.

Definition no_trail (p : ascii -> bool) (x : str) : Prop :=
  forall y c, x = y ++ [c] -> p c = false.

(** A canonicalisation that succeeded and is valid UTF-8. *)
Definition canon_str (env : Env) (x : str) : option str :=
  match canonicalize env x with
  | Some pb => to_str pb
  | None => None
  end.

(** Concrete environments: working directory [/home/u]; [nofile_env] has no
    file at all, [symlink_env] has [readme] linking to [/home/u/readme.md]
    and [notes.md] linking to [/home/u/blob]. *)
Definition home : PathBuf := mkPathBuf (s "/home/u") true.

Definition nofile_env : Env := mkEnv (Some home) (fun _ => None).

Definition symlink_env : Env :=
  mkEnv (Some home)
    (fun x =>
       if str_eqb x (s "readme") || str_eqb x (s "/home/u/readme") then
         Some (mkPathBuf (s "/home/u/readme.md") true)
       else if str_eqb x (s "notes.md") || str_eqb x (s "/home/u/notes.md") then
         Some (mkPathBuf (s "/home/u/blob") true)
       else None).

(** A command-line argument whose cleaned form is not supported. *)
Definition unsupported_arg (x : str) : bool :=
  negb (is_supported_file (clean_file_path x)).

(** The double quote as a one-character string. *)
Definition q : str := [dquote].

(** * Lemmas *)

(** ** Trimming *)

Section Trim.

Variable p : ascii -> bool.

Lemma lead_ok_no_lead x : lead_ok p x = true -> no_lead p x.
Proof.
  intros H c r ->. simpl in H. now apply negb_true_iff.
Qed.

Lemma trail_ok_no_trail x : trail_ok p x = true -> no_trail p x.
Proof.
  intros H y c ->. unfold trail_ok in H. rewrite rev_app_distr in H.
  simpl in H. now apply negb_true_iff.
Qed.

Lemma Forall_no_lead x : Forall (fun c => p c = false) x -> no_lead p x.
Proof. intros H c r ->. now inversion H. Qed.

Lemma Forall_no_trail x : Forall (fun c => p c = false) x -> no_trail p x.
Proof.
  intros H y c ->. rewrite Forall_forall in H. apply H.
  apply in_or_app. right. now left.
Qed.

Lemma no_lead_app x y : no_lead p x -> no_lead p y -> no_lead p (x ++ y).
Proof.
  destruct x as [|a x]; simpl; [auto|].
  intros Hx _ c r E. injection E as -> _. now apply (Hx c x).
Qed.

Lemma no_trail_app x y : no_trail p x -> no_trail p y -> no_trail p (x ++ y).
Proof.
  destruct y as [|b y _] using rev_ind; intros Hx Hy.
  - now rewrite app_nil_r.
  - intros z c E. rewrite app_assoc in E. apply app_inj_tail in E as [_ ->].
    now apply (Hy y).
Qed.

Lemma trim_start_id x : no_lead p x -> trim_start_matches p x = x.
Proof.
  destruct x as [|c r]; intro H; simpl; [reflexivity|].
  now rewrite (H c r eq_refl).
Qed.

Lemma trim_end_id x : no_trail p x -> trim_end_matches p x = x.
Proof.
  induction x as [|c r IH]; intro H; simpl; [reflexivity|].
  rewrite IH.
  - destruct r as [|d r']; [|reflexivity].
    now rewrite (H [] c eq_refl).
  - intros y e Hy. apply (H (c :: y) e). now rewrite Hy.
Qed.

Lemma trim_start_all a b :
  Forall (fun c => p c = true) a ->
  trim_start_matches p (a ++ b) = trim_start_matches p b.
Proof. induction 1 as [|c a Hc _ IH]; simpl; [|rewrite Hc]; auto. Qed.

Lemma trim_end_all_nil b :
  Forall (fun c => p c = true) b -> trim_end_matches p b = [].
Proof. induction 1 as [|c b Hc _ IH]; simpl; [|rewrite IH, Hc]; auto. Qed.

Lemma trim_end_all a b :
  Forall (fun c => p c = true) b ->
  trim_end_matches p (a ++ b) = trim_end_matches p a.
Proof.
  intro Hb. induction a as [|c a IH]; simpl.
  - now apply trim_end_all_nil.
  - now rewrite IH.
Qed.

(** Trimming removes every matching character around a middle part that
    neither starts nor ends with one. *)
Lemma trim_matches_middle a m b :
  Forall (fun c => p c = true) a -> Forall (fun c => p c = true) b ->
  no_lead p m -> no_trail p m -> trim_matches p (a ++ m ++ b) = m.
Proof.
  intros Ha Hb Hl Ht. unfold trim_matches. rewrite trim_start_all by exact Ha.
  destruct m as [|c m'].
  - simpl. rewrite <- (app_nil_r b), (trim_start_all b []) by exact Hb.
    reflexivity.
  - rewrite (trim_start_id ((c :: m') ++ b)).
    + rewrite trim_end_all by exact Hb. now apply trim_end_id.
    + intros c' r E. injection E as -> _. now apply (Hl c' m').
Qed.

End Trim.

(** ** Character facts *)

Lemma is_char_iff c x : is_char c x = true <-> x = c.
Proof. unfold is_char. apply Ascii.eqb_eq. Qed.

Lemma whitespace_not_dquote c : is_whitespace c = true -> is_char dquote c = false.
Proof.
  intro H. destruct (is_char dquote c) eqn:E; [|reflexivity].
  apply is_char_iff in E. subst. discriminate.
Qed.

Lemma whitespace_not_squote c : is_whitespace c = true -> is_char squote c = false.
Proof.
  intro H. destruct (is_char squote c) eqn:E; [|reflexivity].
  apply is_char_iff in E. subst. discriminate.
Qed.

Lemma Forall_repeat_char (p : ascii -> bool) (c : ascii) (b : bool) n :
  p c = b -> Forall (fun x => p x = b) (repeat c n).
Proof.
  intro H. apply Forall_forall. intros x Hx. apply repeat_spec in Hx. now subst.
Qed.

Lemma no_lead_blank p x :
  (forall c, p c = true -> blank c = true) -> lead_ok blank x = true -> no_lead p x.
Proof.
  intros Hp H c r E. apply (lead_ok_no_lead blank) in H.
  specialize (H c r E). destruct (p c) eqn:Pc; [|reflexivity].
  now rewrite (Hp c Pc) in H.
Qed.

Lemma no_trail_blank p x :
  (forall c, p c = true -> blank c = true) -> trail_ok blank x = true -> no_trail p x.
Proof.
  intros Hp H y c E. apply (trail_ok_no_trail blank) in H.
  specialize (H y c E). destruct (p c) eqn:Pc; [|reflexivity].
  now rewrite (Hp c Pc) in H.
Qed.

Lemma dquote_blank c : is_char dquote c = true -> blank c = true.
Proof. unfold blank. intro H. now rewrite H. Qed.

Lemma squote_blank c : is_char squote c = true -> blank c = true.
Proof. unfold blank. intro H. rewrite H. now rewrite orb_true_r. Qed.

Lemma whitespace_blank c : is_whitespace c = true -> blank c = true.
Proof. unfold blank. intro H. rewrite H. now rewrite !orb_true_r. Qed.

(** ** [clean_file_path] on layered input *)

(** [clean_file_path] strips any number [n], [m] of double quotes, then any
    number [k], [l] of single quotes, then whitespace [w1], [w2], around a
    bare core [x]. *)
Lemma clean_file_path_layers n k w1 x w2 l m :
  Forall (fun c => is_whitespace c = true) w1 ->
  Forall (fun c => is_whitespace c = true) w2 ->
  bare x = true ->
  clean_file_path
    (repeat dquote n ++ repeat squote k ++ w1 ++ x ++ w2 ++ repeat squote l
       ++ repeat dquote m) = x.
Proof.
  intros H1 H2 Hx. apply andb_true_iff in Hx as [Hl Ht].
  assert (D1 : Forall (fun c => is_char dquote c = false) w1)
    by (eapply Forall_impl; [exact whitespace_not_dquote | exact H1]).
  assert (D2 : Forall (fun c => is_char dquote c = false) w2)
    by (eapply Forall_impl; [exact whitespace_not_dquote | exact H2]).
  assert (S1 : Forall (fun c => is_char squote c = false) w1)
    by (eapply Forall_impl; [exact whitespace_not_squote | exact H1]).
  assert (S2 : Forall (fun c => is_char squote c = false) w2)
    by (eapply Forall_impl; [exact whitespace_not_squote | exact H2]).
  assert (QD : forall j, Forall (fun c => is_char dquote c = false) (repeat squote j))
    by (intro j; now apply Forall_repeat_char).
  unfold clean_file_path.
  replace (repeat dquote n ++ repeat squote k ++ w1 ++ x ++ w2 ++ repeat squote l
             ++ repeat dquote m)
    with (repeat dquote n ++ (repeat squote k ++ (w1 ++ x ++ w2) ++ repeat squote l)
             ++ repeat dquote m)
    by (now rewrite <- !app_assoc).
  rewrite trim_matches_middle;
    [| now apply Forall_repeat_char, is_char_iff
     | now apply Forall_repeat_char, is_char_iff
     | repeat apply no_lead_app; auto using Forall_no_lead;
       apply (no_lead_blank _ _ dquote_blank Hl)
     | repeat apply no_trail_app; auto using Forall_no_trail;
       apply (no_trail_blank _ _ dquote_blank Ht)].
  rewrite trim_matches_middle;
    [| now apply Forall_repeat_char, is_char_iff
     | now apply Forall_repeat_char, is_char_iff
     | repeat apply no_lead_app; auto using Forall_no_lead;
       apply (no_lead_blank _ _ squote_blank Hl)
     | repeat apply no_trail_app; auto using Forall_no_trail;
       apply (no_trail_blank _ _ squote_blank Ht)].
  unfold trim. apply trim_matches_middle; auto.
  - apply (no_lead_blank _ _ whitespace_blank Hl).
  - apply (no_trail_blank _ _ whitespace_blank Ht).
Qed.

(** ** Suffix test *)

Lemma str_eqb_iff x y : str_eqb x y = true <-> x = y.
Proof.
  revert y; induction x as [|a x IH]; intros [|b y]; simpl;
    try (split; congruence).
  rewrite andb_true_iff, Ascii.eqb_eq, IH. split; [intros [-> ->]|intro E; injection E]; auto.
Qed.

Lemma skipn_prefix (pre suf : str) : skipn (List.length pre) (pre ++ suf) = suf.
Proof. induction pre; simpl; auto. Qed.

Lemma ends_with_iff x suf : ends_with x suf = true <-> exists pre, x = pre ++ suf.
Proof.
  unfold ends_with. rewrite andb_true_iff, Nat.leb_le, str_eqb_iff. split.
  - intros [_ H]. exists (firstn (List.length x - List.length suf) x).
    rewrite <- H at 2. symmetry. apply firstn_skipn.
  - intros [pre ->]. rewrite length_app. split; [lia|].
    replace (List.length pre + List.length suf - List.length suf) with (List.length pre)
      by lia.
    apply skipn_prefix.
Qed.

Lemma ends_with_lowercase x suf :
  ends_with (to_lowercase x) suf = true <->
  exists pre t, x = pre ++ t /\ to_lowercase t = suf.
Proof.
  rewrite ends_with_iff. unfold to_lowercase. split.
  - intros [pre H]. apply map_eq_app in H as (pre' & t & -> & _ & Ht).
    now exists pre', t.
  - intros (pre & t & -> & Ht). exists (map char_to_lowercase pre).
    now rewrite map_app, Ht.
Qed.

Lemma to_str_join_utf8 cur c :
  is_absolute c = false ->
  to_str (join cur c) = if pb_utf8 cur then Some (pb_str (join cur c)) else None.
Proof. intro A. unfold to_str, join. simpl. now rewrite A. Qed.

(** * Claims *)

(** ** [clean_file_path] *)

(** C1 (code bug): on space, double quote, [a.txt], double quote, space,
    [clean_file_path] keeps both quotes: the quote trimming runs before the
    whitespace trim, and the outer spaces shield the quotes from it. The
    argument is then rejected by [setup], whose supported-file filter sees a
    path ending in a double quote. *)
Theorem clean_file_path_spaced_quotes_kept :
  clean_file_path (s " " ++ q ++ s "a.txt" ++ q ++ s " ") = q ++ s "a.txt" ++ q
  /\ clean_file_path (s " " ++ q ++ s "a.txt" ++ q ++ s " ") <> s "a.txt"
  /\ selected_file [s " " ++ q ++ s "a.txt" ++ q ++ s " "] = None.
Proof. split; [reflexivity | split; [discriminate | reflexivity]]. Qed.

(** C8: [clean_file_path] is the identity on a bare string (no leading or
    trailing double quote, single quote or whitespace). *)
Theorem clean_file_path_bare_id (x : str) :
  bare x = true -> clean_file_path x = x.
Proof.
  intro Hx.
  pose proof (clean_file_path_layers 0 0 [] x [] 0 0 (Forall_nil _) (Forall_nil _) Hx)
    as H.
  simpl in H. now rewrite app_nil_r in H.
Qed.

Lemma clean_file_path_bare_id_witness :
  bare (s "notes/a b.md") = true
  /\ clean_file_path (s "notes/a b.md") = s "notes/a b.md".
Proof.
  split; [reflexivity|]. apply clean_file_path_bare_id. reflexivity.
Defined.

(** ** [is_supported_file] *)

Lemma is_supported_file_iff path :
  is_supported_file path = true <->
  exists suf, In suf [s ".md"; s ".markdown"; s ".txt"] /\
    exists pre t, path = pre ++ t /\ to_lowercase t = suf.
Proof.
  unfold is_supported_file. rewrite !orb_true_iff, !ends_with_lowercase.
  split.
  - intros [[H|H]|H]; eexists; (split; [|exact H]); simpl; tauto.
  - intros (suf & Hin & H). simpl in Hin.
    destruct Hin as [<-|[<-|[<-|[]]]]; tauto.
Qed.

(** C2: [is_supported_file] holds exactly when some suffix of the path
    lowercases to [.md], [.markdown] or [.txt]; [FOO.MD] is supported and
    [foo.exe] is not. *)
Theorem is_supported_file_spec :
  (forall path,
     is_supported_file path = true <->
     exists suf, In suf [s ".md"; s ".markdown"; s ".txt"] /\
       exists pre t, path = pre ++ t /\ to_lowercase t = suf)
  /\ is_supported_file (s "FOO.MD") = true
  /\ is_supported_file (s "foo.exe") = false.
Proof.
  split; [|split; reflexivity].
  exact is_supported_file_iff.
Qed.

(** C10: no stem and no existence check: the bare suffixes [.md],
    [.markdown] and [.txt] are supported, the empty string is not. *)
Theorem is_supported_file_bare_suffixes :
  is_supported_file (s ".md") = true
  /\ is_supported_file (s ".markdown") = true
  /\ is_supported_file (s ".txt") = true
  /\ is_supported_file [] = false.
Proof. repeat split. Qed.

(** ** [to_absolute_path] *)

(** C3 (counterexample): a working directory that is not valid UTF-8 cannot
    be joined into a [String]: for the missing relative file [notes.md] the
    code returns [notes.md] itself, not the join [/home/u/notes.md]. And a
    canonicalisation that succeeds with a non-UTF-8 result is not returned:
    the code falls through to the join. *)
Lemma to_absolute_path_relative_not_joined :
  to_absolute_path (mkEnv (Some (mkPathBuf (s "/home/u") false)) (fun _ => None))
    (s "notes.md") = s "notes.md"
  /\ s "notes.md" <> pb_str (join (mkPathBuf (s "/home/u") false) (s "notes.md"))
  /\ to_absolute_path
       (mkEnv (Some home)
          (fun x => if str_eqb x (s "notes.md") then Some (mkPathBuf (s "/data/n.md") false)
                    else None))
       (s "notes.md") = s "/home/u/notes.md".
Proof. split; [reflexivity | split; [discriminate | reflexivity]]. Qed.

(** C3 (amended): for a relative (cleaned) path: a canonicalisation that
    succeeds with a UTF-8 result is returned; otherwise, with a working
    directory that is available and UTF-8, the path is joined onto it and the
    join's UTF-8 canonical form is returned when it exists, else the join
    itself; with a working directory that is unavailable or not UTF-8, the
    cleaned input is returned. *)
Theorem to_absolute_path_relative_cases (env : Env) (path : str) :
  is_absolute (clean_file_path path) = false ->
  (forall r, canon_str env (clean_file_path path) = Some r ->
     to_absolute_path env path = r)
  /\ (canon_str env (clean_file_path path) = None ->
      (forall cur, current_dir env = Some cur -> pb_utf8 cur = true ->
        (forall r, canon_str env (pb_str (join cur (clean_file_path path))) = Some r ->
           to_absolute_path env path = r)
        /\ (canon_str env (pb_str (join cur (clean_file_path path))) = None ->
            to_absolute_path env path = pb_str (join cur (clean_file_path path))))
      /\ ((current_dir env = None
           \/ exists cur, current_dir env = Some cur /\ pb_utf8 cur = false) ->
          to_absolute_path env path = clean_file_path path)).
Proof.
  intro Hrel. unfold canon_str, to_absolute_path. cbv zeta. rewrite Hrel.
  set (c := clean_file_path path).
  destruct (canonicalize env c) as [a|]; [destruct (to_str a) as [r0|]|];
    (split; [intros r Hr; congruence | intro Hn; try discriminate Hn; split]).
  all: try (intros [Hcur|(cur & Hcur & Hutf)]; rewrite Hcur; [reflexivity|];
            now rewrite (to_str_join_utf8 cur c Hrel), Hutf).
  all: intros cur Hcur Hutf; rewrite Hcur, (to_str_join_utf8 cur c Hrel), Hutf;
    destruct (canonicalize env (pb_str (join cur c))) as [pb|];
      [destruct (to_str pb) as [r1|]|];
      (split; intros; congruence).
Qed.

Lemma to_absolute_path_relative_cases_witness :
  to_absolute_path nofile_env (s "notes.md") = s "/home/u/notes.md".
Proof.
  destruct (to_absolute_path_relative_cases nofile_env (s "notes.md") eq_refl)
    as [_ H].
  destruct (H eq_refl) as [H1 _].
  destruct (H1 home eq_refl eq_refl) as [_ H2]. exact (H2 eq_refl).
Defined.

(** C4: [to_absolute_path] always returns a string, built by one of its
    fallbacks: the cleaned input, a successful canonicalisation of it, the
    join onto the working directory, or the canonical form of that join; when
    the working directory is unavailable and canonicalisation failed, it is
    the cleaned input. *)
Theorem to_absolute_path_total (env : Env) (path : str) :
  (current_dir env = None -> canon_str env (clean_file_path path) = None ->
     to_absolute_path env path = clean_file_path path)
  /\ (to_absolute_path env path = clean_file_path path
      \/ canon_str env (clean_file_path path) = Some (to_absolute_path env path)
      \/ exists cur j, current_dir env = Some cur
           /\ to_str (join cur (clean_file_path path)) = Some j
           /\ (to_absolute_path env path = j
               \/ canon_str env j = Some (to_absolute_path env path))).
Proof.
  unfold to_absolute_path, canon_str. split.
  - intros Hcur Hc. rewrite Hcur.
    destruct (canonicalize env (clean_file_path path)) as [a|]; [rewrite Hc|];
      destruct (is_absolute (clean_file_path path)); reflexivity.
  - destruct (is_absolute (clean_file_path path)).
    + destruct (canonicalize env (clean_file_path path)) as [a|]; [|now left].
      destruct (to_str a); [right; now left | now left].
    + set (cleaned := clean_file_path path).
      set (fallback := match current_dir env with
          | Some cur => _ | None => cleaned end).
      assert (Hf : fallback = cleaned
                \/ exists cur j, current_dir env = Some cur
                     /\ to_str (join cur cleaned) = Some j
                     /\ (fallback = j \/ match canonicalize env j with
                                         | Some pb => to_str pb
                                         | None => None end = Some fallback)).
      { subst fallback. destruct (current_dir env) as [cur|]; [|now left].
        destruct (to_str (join cur cleaned)) as [j|] eqn:Ej; [|now left].
        right. exists cur, j. do 2 (split; [reflexivity || exact Ej|]).
        destruct (canonicalize env j) as [c|]; [|now left].
        destruct (to_str c); [now right | now left]. }
      destruct (canonicalize env cleaned) as [a|].
      * destruct (to_str a) as [r|]; [right; now left|].
        destruct Hf as [Hf|Hf]; [now left | now right; right].
      * destruct Hf as [Hf|Hf]; [now left | now right; right].
Qed.

(** ** [process_and_emit_file] *)

Lemma process_and_emit_file_eq env path :
  process_and_emit_file env path =
  if is_supported_file (to_absolute_path env (clean_file_path path)) then
    [[Sleep 800; Emit "open-file" (to_absolute_path env (clean_file_path path))]]
  else [].
Proof. reflexivity. Qed.

Lemma process_and_emit_file_payload env path th ev payload :
  In th (process_and_emit_file env path) -> In (Emit ev payload) th ->
  is_supported_file payload = true.
Proof.
  rewrite process_and_emit_file_eq.
  destruct (is_supported_file (to_absolute_path env (clean_file_path path))) eqn:E;
    [|intros []].
  intros [<-|[]] Hin. simpl in Hin.
  destruct Hin as [Hin|[Hin|[]]]; [discriminate|]. injection Hin as _ <-. exact E.
Qed.

(** C5 (counterexample): [readme] has no supported extension, but it is a
    symbolic link to [/home/u/readme.md]; [process_and_emit_file] checks the
    resolved path and schedules the notification. *)
Lemma dispatch_unsupported_input_emits :
  is_supported_file (s "readme") = false
  /\ process_and_emit_file symlink_env (s "readme")
     = [[Sleep 800; Emit "open-file" (s "/home/u/readme.md")]].
Proof. split; reflexivity. Qed.

(** C5 (amended): when the resolved path (cleaned, then made absolute) has no
    supported extension, [process_and_emit_file] spawns nothing. *)
Theorem dispatch_unsupported_resolved_silent (env : Env) (path : str) :
  is_supported_file (to_absolute_path env (clean_file_path path)) = false ->
  process_and_emit_file env path = [].
Proof. intro H. now rewrite process_and_emit_file_eq, H. Qed.

Lemma dispatch_unsupported_resolved_silent_witness :
  is_supported_file (to_absolute_path nofile_env (clean_file_path (s "foo.exe")))
    = false
  /\ process_and_emit_file nofile_env (s "foo.exe") = [].
Proof.
  split; [reflexivity|]. apply dispatch_unsupported_resolved_silent. reflexivity.
Defined.

(** C6 (counterexample): [notes.md] has a supported extension, but it is a
    symbolic link to [/home/u/blob]; the resolved path is unsupported and no
    notification is scheduled. *)
Lemma dispatch_supported_input_silent :
  is_supported_file (s "notes.md") = true
  /\ process_and_emit_file symlink_env (s "notes.md") = [].
Proof. split; reflexivity. Qed.

(** C6 (amended): when the resolved path has a supported extension,
    [process_and_emit_file] spawns exactly one thread, which sleeps 800 ms and
    then emits [open-file] with the resolved path; when the resolved path is
    unsupported (whatever the extension of the input), it spawns nothing. *)
Theorem dispatch_resolved_supported_emits_once (env : Env) (path : str) :
  (is_supported_file (to_absolute_path env (clean_file_path path)) = true ->
   process_and_emit_file env path =
   [[Sleep 800; Emit "open-file" (to_absolute_path env (clean_file_path path))]])
  /\ (is_supported_file path = true ->
      is_supported_file (to_absolute_path env (clean_file_path path)) = false ->
      process_and_emit_file env path = []).
Proof.
  rewrite process_and_emit_file_eq. split.
  - intro H. now rewrite H.
  - intros _ H. now rewrite H.
Qed.

Lemma dispatch_resolved_supported_emits_once_witness :
  process_and_emit_file nofile_env (s "notes.md")
  = [[Sleep 800; Emit "open-file" (s "/home/u/notes.md")]]
  /\ process_and_emit_file symlink_env (s "notes.md") = [].
Proof.
  split.
  - apply (proj1 (dispatch_resolved_supported_emits_once nofile_env (s "notes.md"))).
    reflexivity.
  - apply (proj2 (dispatch_resolved_supported_emits_once symlink_env (s "notes.md")));
      reflexivity.
Defined.

Lemma selected_file_cons a r :
  selected_file (a :: r) =
  if is_supported_file (clean_file_path a) then Some (clean_file_path a)
  else selected_file r.
Proof.
  unfold selected_file, file_args. simpl.
  destruct (is_supported_file (clean_file_path a)); reflexivity.
Qed.

(** C9: every emitted [open-file] payload, from [setup] or any call of
    [process_and_emit_file], passes [is_supported_file]. *)
Theorem emitted_payload_supported (env : Env) (args : list str) th ev payload :
  In th (setup env args) -> In (Emit ev payload) th ->
  is_supported_file payload = true.
Proof.
  unfold setup. destruct (selected_file args) as [f|]; [|intros []].
  apply process_and_emit_file_payload.
Qed.

Lemma emitted_payload_supported_witness :
  In [Sleep 800; Emit "open-file" (s "/home/u/notes.md")]
     (setup nofile_env [s "-v"; s "notes.md"])
  /\ is_supported_file (s "/home/u/notes.md") = true.
Proof.
  assert (Hth : In [Sleep 800; Emit "open-file" (s "/home/u/notes.md")]
                  (setup nofile_env [s "-v"; s "notes.md"])) by (left; reflexivity).
  split; [exact Hth|].
  apply (emitted_payload_supported nofile_env [s "-v"; s "notes.md"] _ "open-file" _ Hth).
  right. left. reflexivity.
Defined.

Lemma selected_file_some args f :
  selected_file args = Some f <->
  exists pre a post, args = pre ++ a :: post
    /\ forallb unsupported_arg pre = true
    /\ is_supported_file (clean_file_path a) = true
    /\ f = clean_file_path a.
Proof.
  induction args as [|x r IH].
  - split; [discriminate|]. intros (pre & a & post & E & _).
    destruct pre; discriminate.
  - rewrite selected_file_cons. destruct (is_supported_file (clean_file_path x)) eqn:Ex.
    + split.
      * intro E. injection E as <-. now exists [], x, r.
      * intros ([|y pre] & a & post & E & Hpre & Ha & ->).
        -- injection E as -> _. reflexivity.
        -- injection E as -> _. simpl in Hpre. unfold unsupported_arg in Hpre.
           rewrite Ex in Hpre. discriminate.
    + rewrite IH. split.
      * intros (pre & a & post & -> & Hpre & Ha & ->).
        exists (x :: pre), a, post. simpl. unfold unsupported_arg at 1. rewrite Ex.
        auto.
      * intros ([|y pre] & a & post & E & Hpre & Ha & ->).
        -- injection E as -> _. congruence.
        -- injection E as -> ->. simpl in Hpre. apply andb_true_iff in Hpre as [_ Hpre].
           now exists pre, a, post.
Qed.

Lemma selected_file_none args :
  selected_file args = None <-> forallb unsupported_arg args = true.
Proof.
  induction args as [|x r IH]; [split; reflexivity|].
  rewrite selected_file_cons. simpl. unfold unsupported_arg at 1.
  destruct (is_supported_file (clean_file_path x)); simpl; [split; discriminate|].
  exact IH.
Qed.

(** The selection of [setup] on already decoded arguments. *)
Lemma setup_selection (env : Env) (args : list str) :
  (forall f, selected_file args = Some f <->
     exists pre a post, args = pre ++ a :: post
       /\ forallb unsupported_arg pre = true
       /\ is_supported_file (clean_file_path a) = true
       /\ f = clean_file_path a)
  /\ (selected_file args = None <-> forallb unsupported_arg args = true)
  /\ (forallb unsupported_arg args = true -> setup env args = [])
  /\ (forall f, selected_file args = Some f -> setup env args = process_and_emit_file env f).
Proof.
  split; [intro f; apply selected_file_some|].
  split; [apply selected_file_none|].
  unfold setup. split.
  - intro H. apply selected_file_none in H. now rewrite H.
  - intros f ->. reflexivity.
Qed.

(** C7 (counterexample): [std::env::args()] panics on an argument that is not
    valid UTF-8: with the OS arguments program, a non-UTF-8 argument and
    [a.md], the first supported argument [a.md] is not selected; the setup
    closure panics and nothing is dispatched. *)
Lemma main_setup_non_utf8_arg_panics :
  is_supported_file (clean_file_path (s "a.md")) = true
  /\ main_setup nofile_env
       [mkPathBuf (s "dongshanmd") true; mkPathBuf (s "x") false;
        mkPathBuf (s "a.md") true] = None.
Proof. split; reflexivity. Qed.

(** C7 (amended): when every OS-supplied argument (program name included) is
    valid UTF-8, the setup closure runs on the arguments after the program
    name; the file it hands to [process_and_emit_file] is the cleaned form of
    the first of them whose cleaned form is supported, and when none
    qualifies nothing is dispatched. *)
Theorem main_setup_selects_first_supported (env : Env) (os_args : list OsString) :
  forallb pb_utf8 os_args = true ->
  main_setup env os_args = Some (setup env (skipn 1 (map pb_str os_args)))
  /\ (forall f, selected_file (skipn 1 (map pb_str os_args)) = Some f <->
       exists pre a post, skipn 1 (map pb_str os_args) = pre ++ a :: post
         /\ forallb unsupported_arg pre = true
         /\ is_supported_file (clean_file_path a) = true
         /\ f = clean_file_path a)
  /\ (forall f, selected_file (skipn 1 (map pb_str os_args)) = Some f ->
       main_setup env os_args = Some (process_and_emit_file env f))
  /\ (forallb unsupported_arg (skipn 1 (map pb_str os_args)) = true ->
       selected_file (skipn 1 (map pb_str os_args)) = None
       /\ main_setup env os_args = Some []).
Proof.
  intro Hu.
  assert (Hm : main_setup env os_args = Some (setup env (skipn 1 (map pb_str os_args))))
    by (unfold main_setup, env_args; now rewrite Hu).
  destruct (setup_selection env (skipn 1 (map pb_str os_args)))
    as (Hsome & Hnone & Hempty & Hproc).
  split; [exact Hm|]. split; [exact Hsome|]. split.
  - intros f Hf. rewrite Hm. f_equal. now apply Hproc.
  - intro H. split; [now apply Hnone|]. rewrite Hm. f_equal. now apply Hempty.
Qed.

Lemma main_setup_selects_first_supported_witness :
  main_setup nofile_env
    [mkPathBuf (s "dongshanmd") true; mkPathBuf (s "-v") true;
     mkPathBuf (s "' b.txt'") true; mkPathBuf (s "a.md") true]
  = Some (process_and_emit_file nofile_env (s "b.txt")).
Proof.
  apply (proj1 (proj2 (proj2 (main_setup_selects_first_supported nofile_env
    [mkPathBuf (s "dongshanmd") true; mkPathBuf (s "-v") true;
     mkPathBuf (s "' b.txt'") true; mkPathBuf (s "a.md") true] eq_refl)))).
  reflexivity.
Defined.


Example selected_file_quoted_args :
  selected_file [s "-v"; q ++ s "a.md" ++ q; s "b.txt"] = Some (s "a.md").
Proof. reflexivity. Qed.

(** * Further properties of the code *)

(** ** Character-level facts (checked over all 256 characters) *)

Lemma blank_lowercase_id c : blank c = true -> char_to_lowercase c = c.
Proof.
  destruct c as [[] [] [] [] [] [] [] []]; intro H;
    (reflexivity || discriminate H).
Qed.

Lemma char_to_lowercase_idem c :
  char_to_lowercase (char_to_lowercase c) = char_to_lowercase c.
Proof. destruct c as [[] [] [] [] [] [] [] []]; reflexivity. Qed.

(** ** Trimming keeps what it does not reach *)

Lemma no_trail_app_r p x t : t <> [] -> no_trail p t -> no_trail p (x ++ t).
Proof.
  destruct t as [|d t _] using rev_ind; [contradiction|].
  intros _ Ht y c E. rewrite app_assoc in E. apply app_inj_tail in E as [_ ->].
  now apply (Ht t).
Qed.

Lemma trim_start_keeps_tail p pre t :
  no_lead p t -> t <> [] ->
  exists pre', trim_start_matches p (pre ++ t) = pre' ++ t.
Proof.
  intros Hl Hne. induction pre as [|a pre IH]; simpl.
  - exists []. now apply trim_start_id.
  - destruct (p a); [exact IH|]. now exists (a :: pre).
Qed.

(** One [trim_matches] pass keeps a non-empty tail [t] that neither starts nor
    ends with a trimmed character. *)
Lemma trim_matches_keeps_tail p pre t :
  t <> [] -> no_lead p t -> no_trail p t ->
  exists pre', trim_matches p (pre ++ t) = pre' ++ t.
Proof.
  intros Hne Hl Ht. unfold trim_matches.
  destruct (trim_start_keeps_tail p pre t Hl Hne) as [pre' ->].
  exists pre'. apply trim_end_id. now apply no_trail_app_r.
Qed.

Lemma no_lead_weaken (p p' : ascii -> bool) x :
  (forall c, p c = true -> p' c = true) -> no_lead p' x -> no_lead p x.
Proof.
  intros Hp H c r E. specialize (H c r E).
  destruct (p c) eqn:Pc; [|reflexivity]. now rewrite (Hp c Pc) in H.
Qed.

Lemma no_trail_weaken (p p' : ascii -> bool) x :
  (forall c, p c = true -> p' c = true) -> no_trail p' x -> no_trail p x.
Proof.
  intros Hp H y c E. specialize (H y c E).
  destruct (p c) eqn:Pc; [|reflexivity]. now rewrite (Hp c Pc) in H.
Qed.

(** [clean_file_path] keeps a non-empty tail that is bare. *)
Lemma clean_file_path_keeps_tail pre t :
  t <> [] -> no_lead blank t -> no_trail blank t ->
  exists pre', clean_file_path (pre ++ t) = pre' ++ t.
Proof.
  intros Hne Hl Ht. unfold clean_file_path, trim.
  destruct (trim_matches_keeps_tail (is_char dquote) pre t Hne
              (no_lead_weaken _ _ _ dquote_blank Hl)
              (no_trail_weaken _ _ _ dquote_blank Ht)) as [p1 ->].
  destruct (trim_matches_keeps_tail (is_char squote) p1 t Hne
              (no_lead_weaken _ _ _ squote_blank Hl)
              (no_trail_weaken _ _ _ squote_blank Ht)) as [p2 ->].
  exact (trim_matches_keeps_tail is_whitespace p2 t Hne
           (no_lead_weaken _ _ _ whitespace_blank Hl)
           (no_trail_weaken _ _ _ whitespace_blank Ht)).
Qed.

(** A string lowercasing to a bare string is bare. *)
Lemma lowercase_bare t suf :
  to_lowercase t = suf -> bare suf = true -> no_lead blank t /\ no_trail blank t.
Proof.
  intros E Hb. apply andb_true_iff in Hb as [Hl Ht].
  apply (lead_ok_no_lead blank) in Hl. apply (trail_ok_no_trail blank) in Ht.
  split.
  - intros c r ->. destruct (blank c) eqn:Bc; [|reflexivity].
    rewrite <- (Hl (char_to_lowercase c) (map char_to_lowercase r)) by (symmetry; exact E).
    now rewrite blank_lowercase_id.
  - intros y c ->. destruct (blank c) eqn:Bc; [|reflexivity].
    rewrite <- (Ht (map char_to_lowercase y) (char_to_lowercase c)).
    + now rewrite blank_lowercase_id.
    + rewrite <- E. unfold to_lowercase. now rewrite map_app.
Qed.

Lemma trim_start_no_lead p x : no_lead p (trim_start_matches p x).
Proof.
  induction x as [|a x IH]; simpl; [intros c r E; discriminate|].
  destruct (p a) eqn:Pa; [exact IH|]. intros c r E. injection E as -> _. exact Pa.
Qed.

Lemma trim_end_prefix p y : exists t, y = trim_end_matches p y ++ t.
Proof.
  induction y as [|c r [t Ht]]; simpl; [now exists []|].
  destruct (trim_end_matches p r) as [|d r'].
  - destruct (p c); [now exists (c :: r) | now exists r].
  - exists t. simpl. f_equal. exact Ht.
Qed.

Lemma trim_end_no_trail p y : no_trail p (trim_end_matches p y).
Proof.
  induction y as [|c r IH]; simpl.
  - intros z e H. destruct z; discriminate.
  - destruct (trim_end_matches p r) as [|d r'].
    + destruct (p c) eqn:Pc; intros z e H.
      * destruct z; discriminate.
      * change [c] with ([] ++ [c]) in H. apply app_inj_tail in H as [_ <-]. exact Pc.
    + intros [|a z] e H.
      * injection H as _ H'. discriminate.
      * injection H as _ H'. exact (IH z e H').
Qed.

Lemma trim_end_no_lead p y : no_lead p y -> no_lead p (trim_end_matches p y).
Proof.
  intros Hy c r E. destruct (trim_end_prefix p y) as [t Ht].
  rewrite E in Ht. exact (Hy c (r ++ t) Ht).
Qed.

Lemma no_lead_lead_ok p x : no_lead p x -> lead_ok p x = true.
Proof. destruct x as [|c x]; intro H; simpl; [reflexivity|]. now rewrite (H c x eq_refl). Qed.

Lemma no_trail_trail_ok p x : no_trail p x -> trail_ok p x = true.
Proof.
  intro H. unfold trail_ok. destruct (rev x) as [|c r] eqn:E; simpl; [reflexivity|].
  rewrite (H (rev r) c); [reflexivity|].
  rewrite <- (rev_involutive x), E. reflexivity.
Qed.

Lemma join_suffix base path :
  is_absolute path = false -> exists pre, pb_str (join base path) = pre ++ path.
Proof.
  intro H. unfold join. simpl. rewrite H.
  destruct (rev (pb_str base)) as [|c r]; [now exists []|].
  destruct (Ascii.eqb c slash); [now exists (pb_str base)|].
  exists (pb_str base ++ [slash]). now rewrite <- app_assoc.
Qed.

Lemma join_absolute base path :
  is_absolute (pb_str base) = true -> is_absolute (pb_str (join base path)) = true.
Proof.
  intro Hb. unfold join. simpl. destruct (is_absolute path) eqn:Ha; [exact Ha|].
  destruct (pb_str base) as [|c b] eqn:E; [discriminate|].
  simpl rev. destruct (rev b ++ [c]) as [|d r] eqn:R.
  - apply app_eq_nil in R as [_ R]. discriminate.
  - destruct (Ascii.eqb d slash); exact Hb.
Qed.

(** ** [clean_file_path] *)

(** [clean_file_path] never returns a string that starts or ends with
    whitespace. *)
Theorem clean_file_path_no_outer_whitespace (x : str) :
  lead_ok is_whitespace (clean_file_path x) = true
  /\ trail_ok is_whitespace (clean_file_path x) = true.
Proof.
  unfold clean_file_path, trim, trim_matches. split.
  - apply no_lead_lead_ok, trim_end_no_lead, trim_start_no_lead.
  - apply no_trail_trail_ok, trim_end_no_trail.
Qed.

(** ** [is_supported_file] *)

(** [is_supported_file] is case-insensitive: lowercasing the path first does
    not change the answer. *)
Theorem is_supported_file_lowercase (x : str) :
  is_supported_file (to_lowercase x) = is_supported_file x.
Proof.
  unfold is_supported_file, to_lowercase. rewrite map_map.
  rewrite (map_ext _ _ char_to_lowercase_idem). reflexivity.
Qed.

Lemma supported_prefix (pre x : str) :
  is_supported_file x = true -> is_supported_file (pre ++ x) = true.
Proof.
  rewrite !is_supported_file_iff.
  intros (suf & Hin & p & t & -> & Ht). exists suf. split; [exact Hin|].
  exists (pre ++ p), t. now rewrite app_assoc.
Qed.

(** Putting anything (a directory, a drive) in front of a supported path keeps
    it supported. *)
Theorem is_supported_file_prefix (pre x : str) :
  is_supported_file x = true -> is_supported_file (pre ++ x) = true.
Proof. apply supported_prefix. Qed.

Lemma is_supported_file_prefix_witness :
  is_supported_file (s "/home/u/" ++ s "Notes.MarkDown") = true.
Proof. apply is_supported_file_prefix. reflexivity. Defined.

Lemma clean_keeps_supported (x : str) :
  is_supported_file x = true -> is_supported_file (clean_file_path x) = true.
Proof.
  rewrite !is_supported_file_iff.
  intros (suf & Hin & p & t & -> & Ht).
  assert (Hb : bare suf = true)
    by (simpl in Hin; destruct Hin as [<-|[<-|[<-|[]]]]; reflexivity).
  assert (Hne : t <> []).
  { intros ->. simpl in Hin, Ht. subst suf. destruct Hin as [H|[H|[H|[]]]]; discriminate. }
  destruct (lowercase_bare t suf Ht Hb) as [Hl Htr].
  destruct (clean_file_path_keeps_tail p t Hne Hl Htr) as [p' ->].
  exists suf. split; [exact Hin|]. now exists p', t.
Qed.

(** Cleaning a supported path keeps it supported: the supported suffix ends
    in a letter and starts with a dot, so no trimming reaches it. *)
Theorem clean_file_path_keeps_supported (x : str) :
  is_supported_file x = true -> is_supported_file (clean_file_path x) = true.
Proof. apply clean_keeps_supported. Qed.

Lemma clean_file_path_keeps_supported_witness :
  is_supported_file (clean_file_path (s "  " ++ q ++ s "a.TXT")) = true.
Proof. apply clean_file_path_keeps_supported. reflexivity. Defined.

(** ** [to_absolute_path] *)



(** With an absolute, UTF-8 working directory and a [canonicalize] that only
    returns absolute paths, the result is always absolute. *)
Theorem to_absolute_path_is_absolute (env : Env) (path : str) (cur : PathBuf) :
  current_dir env = Some cur -> pb_utf8 cur = true ->
  is_absolute (pb_str cur) = true ->
  (forall x pb, canonicalize env x = Some pb -> is_absolute (pb_str pb) = true) ->
  is_absolute (to_absolute_path env path) = true.
Proof.
  intros Hcur Hutf Habs Hc. unfold to_absolute_path. cbv zeta.
  set (c := clean_file_path path). destruct (is_absolute c) eqn:A.
  - destruct (canonicalize env c) as [pb|] eqn:C; [|exact A].
    unfold to_str. destruct (pb_utf8 pb); [exact (Hc c pb C) | exact A].
  - rewrite Hcur, (to_str_join_utf8 cur c A), Hutf.
    destruct (canonicalize env c) as [pb|] eqn:C;
      destruct (canonicalize env (pb_str (join cur c))) as [pb'|] eqn:C';
      unfold to_str; try destruct (pb_utf8 pb); try destruct (pb_utf8 pb');
      first [exact (Hc _ _ C) | exact (Hc _ _ C') | now apply join_absolute].
Qed.

Lemma to_absolute_path_is_absolute_witness :
  is_absolute (to_absolute_path symlink_env (s "docs/x.md")) = true.
Proof.
  apply (to_absolute_path_is_absolute symlink_env (s "docs/x.md") home eq_refl eq_refl
           eq_refl).
  intros x pb. cbn [canonicalize symlink_env].
  destruct (orb _ _); [intro E; injection E as <-; reflexivity|].
  destruct (orb _ _); [intro E; injection E as <-; reflexivity | discriminate].
Defined.

(** A working directory that is not valid UTF-8 cannot be joined into a
    [String]: a relative path whose canonicalisation fails comes back as the
    cleaned, still relative, input. *)
Theorem to_absolute_path_non_utf8_cwd (env : Env) (path : str) (cur : PathBuf) :
  is_absolute (clean_file_path path) = false ->
  canon_str env (clean_file_path path) = None ->
  current_dir env = Some cur -> pb_utf8 cur = false ->
  to_absolute_path env path = clean_file_path path.
Proof.
  intros A Hc Hcur Hutf. unfold to_absolute_path. cbv zeta. rewrite A, Hcur.
  rewrite (to_str_join_utf8 cur _ A), Hutf.
  unfold canon_str in Hc.
  destruct (canonicalize env (clean_file_path path)) as [pb|]; [rewrite Hc|];
    reflexivity.
Qed.

Lemma to_absolute_path_non_utf8_cwd_witness :
  to_absolute_path (mkEnv (Some (mkPathBuf (s "/home/u") false)) (fun _ => None))
    (s "notes.md") = clean_file_path (s "notes.md")
  /\ clean_file_path (s "notes.md") = s "notes.md".
Proof.
  split; [|reflexivity].
  apply (to_absolute_path_non_utf8_cwd _ _ (mkPathBuf (s "/home/u") false));
    reflexivity.
Defined.

(** ** [setup] *)

(** Whatever the arguments, [setup] spawns at most one thread, and that thread
    sleeps 800 ms and then emits one [open-file] event whose payload is
    supported. *)
Theorem setup_spawns_at_most_one (env : Env) (args : list str) :
  setup env args = []
  \/ exists p, is_supported_file p = true
       /\ setup env args = [[Sleep 800; Emit "open-file" p]].
Proof.
  unfold setup. destruct (selected_file args) as [f|]; [|now left].
  rewrite process_and_emit_file_eq.
  destruct (is_supported_file (to_absolute_path env (clean_file_path f))) eqn:E;
    [right; eexists; split; [exact E | reflexivity] | now left].
Qed.

(** When nothing can be canonicalised (no such file yet) and the working
    directory is available and UTF-8, a selected file whose twice-cleaned
    form (once in [process_and_emit_file], once in [to_absolute_path]) is
    relative is always emitted, joined onto the working directory. *)
Theorem setup_without_canonicalize (env : Env) (cur : PathBuf) (args : list str)
    (f : str) :
  current_dir env = Some cur -> pb_utf8 cur = true ->
  (forall x, canonicalize env x = None) ->
  selected_file args = Some f ->
  is_absolute (clean_file_path (clean_file_path f)) = false ->
  setup env args =
  [[Sleep 800; Emit "open-file" (pb_str (join cur (clean_file_path (clean_file_path f))))]].
Proof.
  intros Hcur Hutf Hnone Hsel A.
  assert (Hf : is_supported_file f = true).
  { apply selected_file_some in Hsel as (pre & a & post & _ & _ & Ha & ->). exact Ha. }
  unfold setup. rewrite Hsel, process_and_emit_file_eq.
  assert (R : to_absolute_path env (clean_file_path f)
              = pb_str (join cur (clean_file_path (clean_file_path f)))).
  { unfold to_absolute_path. cbv zeta.
    rewrite A, Hcur, (to_str_join_utf8 cur _ A), Hutf, !Hnone. reflexivity. }
  rewrite R.
  destruct (join_suffix cur (clean_file_path (clean_file_path f)) A) as [pre ->].
  rewrite (supported_prefix pre _ (clean_keeps_supported _ (clean_keeps_supported _ Hf))).
  reflexivity.
Qed.

Lemma setup_without_canonicalize_witness :
  setup nofile_env [s "--flag"; q ++ s "notes.md" ++ q; s "b.txt"]
  = [[Sleep 800; Emit "open-file" (s "/home/u/notes.md")]].
Proof.
  rewrite (setup_without_canonicalize nofile_env home
             [s "--flag"; q ++ s "notes.md" ++ q; s "b.txt"] (s "notes.md")
             eq_refl eq_refl (fun _ => eq_refl) eq_refl eq_refl).
  reflexivity.
Defined.
